(** * icinga2 client: result reconciliation, client construction, mock store

    Shallow embedding of [icinga2/icinga.go].

    - Go strings are byte strings: [string], concatenation [+:+].
    - [float64] is Rocq's primitive binary64 [float]; [int] status codes
      are [Z] (only compared against 400, so no wrap-around is involved).
    - A Go pointer that may be nil is an [option]; dereferencing nil is
      the [Panicked] outcome.
    - Go maps are stdpp [gmap]s.
    - The napping session and [x509.SystemCertPool] are external: their
      replies are taken as arguments. *)

From Stdlib Require Import ZArith Floats Ascii String.
From stdpp Require Import gmap strings list.

Local Open Scope Z_scope.

(** ** Go's [strings] and [fmt] helpers used by the file *)

Module strings.

(** [strings.Join(elems, sep)] *)
Fixpoint Join (elems : list string) (sep : string) : string :=
  match elems with
  | [] => ""
  | [e] => e
  | e :: rest => e +:+ sep +:+ Join rest sep
  end.

(** Membership of a byte in a cutset. *)
Fixpoint in_cutset (c : ascii) (cutset : string) : bool :=
  match cutset with
  | EmptyString => false
  | String d rest => Ascii.eqb c d || in_cutset c rest
  end.

(** [strings.TrimRight(s, cutset)] for a cutset of ASCII bytes: the
    longest suffix made of cutset bytes is removed. *)
Fixpoint TrimRight (s cutset : string) : string :=
  match s with
  | EmptyString => EmptyString
  | String c rest =>
      match TrimRight rest cutset with
      | EmptyString => if in_cutset c cutset then EmptyString else String c EmptyString
      | kept => String c kept
      end
  end.

End strings.

Module fmt.

(** [fmt.Sprintf] restricted to the [%s] verb applied to string
    operands; every other byte of the format is copied. *)
Fixpoint Sprintf (format : string) (args : list string) : string :=
  match format with
  | EmptyString => EmptyString
  | String c rest =>
      if Ascii.eqb c "%" then
        match rest with
        | String d rest' =>
            if Ascii.eqb d "s" then
              match args with
              | a :: args' => a +:+ Sprintf rest' args'
              | [] => "%!s(MISSING)" +:+ Sprintf rest' []
              end
            else String c (Sprintf rest args)
        | EmptyString => "%!(NOVERB)"
        end
      else String c (Sprintf rest args)
  end.

End fmt.

(** ** Data model *)

(** Go's [error] interface, as far as this file sees it: a value built
    by [fmt.Errorf] (its text), or an error handed over by the HTTP
    session or the certificate store. *)
Inductive error : Type :=
| Errorf (msg : string)
| ExternalError (description : string).

(** One element of [Results.Results]. *)
Record ResultItem : Type := {
  Code : float;
  Errors : list string;
  Status : string;
  Name : string;
  Type_ : string
}.

Record Results : Type := { Results_ : list ResultItem }.

(** What [resp.HttpResponse()] exposes of the HTTP response. An
    [option HttpResponse] stands for the whole chain
    [resp.HttpResponse()]: it is [None] as soon as one pointer of the
    chain is nil. *)
Record HttpResponse : Type := {
  StatusCode : Z;
  HttpStatus : string
}.

(** Result of running a function body: it returns a value or panics
    on a nil dereference. *)
Inductive outcome (A : Type) : Type :=
| Returned (a : A)
| Panicked.
Arguments Returned {A} a.
Arguments Panicked {A}.

(** ** handleResults *)

(** [r.Code >= 400.0] *)
Definition failing (r : ResultItem) : bool := PrimFloat.leb 400%float (Code r).

(** [r.Status + " " + strings.Join(r.Errors, " ") + " "] *)
Definition item_report (r : ResultItem) : string :=
  ((Status r +:+ " ") +:+ strings.Join (Errors r) " ") +:+ " ".

(** One [for _, r := range ...] loop appending to [resultReport]. *)
Definition scan (resultReport : string) (items : list ResultItem) : string :=
  fold_left
    (fun acc r => if failing r then acc +:+ item_report r else acc)
    items resultReport.

(** The line feed closing the second format string. *)
Definition LF : string := String (ascii_of_nat 10) EmptyString.

Definition status_format : string := "%s %s : %s - %s".
Definition items_format : string := Eval cbv in ("%s %s : %s" +:+ LF).

Definition handleResults (typ path : string) (resp : option HttpResponse)
    (results errmsg : option Results) (oerr : option error)
  : outcome (option error) :=
  let resultReport := "" in
  match oerr with
  | Some e => Returned (Some e)
  | None =>
      match results with
      | None => Panicked
      | Some results =>
          let resultReport := scan resultReport (Results_ results) in
          match errmsg with
          | None => Panicked
          | Some errmsg =>
              let resultReport := scan resultReport (Results_ errmsg) in
              match resp with
              | None => Panicked
              | Some resp =>
                  if 400 <=? StatusCode resp then
                    Returned (Some (Errorf (fmt.Sprintf status_format
                      [typ; path; HttpStatus resp; resultReport])))
                  else if negb (String.eqb resultReport "") then
                    Returned (Some (Errorf (fmt.Sprintf items_format
                      [typ; path; resultReport])))
                  else Returned oerr
              end
          end
      end
  end.

(** ** The live client *)

(** [x509.CertPool]: a set of certificates, each kept as its encoding. *)
Record CertPool : Type := { certs : list string }.

Record TLSConfig : Type := {
  InsecureSkipVerify : bool;
  TLS_RootCAs : option CertPool
}.

Record HttpTransport : Type := {
  TLSClientConfig : TLSConfig;
  Transport_DisableKeepAlives : bool
}.

Record HttpClient : Type := { Transport : HttpTransport }.

(** [napping.Session]; a nil [Client] or [Userinfo] is [None]. *)
Record Session : Type := {
  Log : bool;
  Client : option HttpClient;
  Userinfo : option (string * string)
}.

Record WebClient : Type := {
  napping : Session;
  URL : string;
  Username : string;
  Password : string;
  Debug : bool;
  InsecureTLS : bool;
  DisableKeepAlives : bool;
  Zone : string;
  RootCAs : option CertPool
}.

(** [New]. [SystemCertPool] is what [x509.SystemCertPool()] answers on
    this machine, a pool and an error; it is consulted only when no
    pool was supplied. The returned pointer is [&s], never nil, so the
    client itself is returned. *)
Definition New (SystemCertPool : option CertPool * option error) (s : WebClient)
  : WebClient * option error :=
  let rootCAs := RootCAs s in
  let rootCAs :=
    match rootCAs with
    | None => fst SystemCertPool
    | Some _ => rootCAs
    end in
  let transport :=
    {| TLSClientConfig :=
         {| InsecureSkipVerify := InsecureTLS s; TLS_RootCAs := rootCAs |};
       Transport_DisableKeepAlives := DisableKeepAlives s |} in
  let client := {| Transport := transport |} in
  let s_napping :=
    {| Log := Debug s;
       Client := Some client;
       Userinfo := Some (Username s, Password s) |} in
  let s_URL := strings.TrimRight (URL s) "/" in
  ({| napping := s_napping;
      URL := s_URL;
      Username := Username s;
      Password := Password s;
      Debug := Debug s;
      InsecureTLS := InsecureTLS s;
      DisableKeepAlives := DisableKeepAlives s;
      Zone := Zone s;
      RootCAs := RootCAs s |},
   None).

(** What a [napping] call leaves behind: the response pointer, the two
    decoded bodies written through [&results] and [&errmsg], and the
    error. *)
Record Reply : Type := {
  reply_resp : option HttpResponse;
  reply_results : Results;
  reply_errmsg : Results;
  reply_err : option error
}.

Section LiveClient.

(** The payload type behind [interface{}] and the session's [Put] and
    [Post], which belong to the napping library. *)
Context {Payload : Type}.
Variable Put Post : Session -> string -> Payload -> Reply.

Definition CreateObject (s : WebClient) (path : string) (create : Payload)
  : outcome (option error) :=
  let r := Put (napping s) ((URL s +:+ "/v1/objects") +:+ path) create in
  handleResults "create" path (reply_resp r)
    (Some (reply_results r)) (Some (reply_errmsg r)) (reply_err r).

Definition UpdateObject (s : WebClient) (path : string) (create : Payload)
  : outcome (option error) :=
  let r := Post (napping s) ((URL s +:+ "/v1/objects") +:+ path) create in
  handleResults "update" path (reply_resp r)
    (Some (reply_results r)) (Some (reply_errmsg r)) (reply_err r).

End LiveClient.

(** ** The mock client *)

Section Mock.

(** The entity types are declared in the package's other files. *)
Context {HostGroup Host Service Action : Type}.

Record MockClient : Type := {
  Hostgroups : gmap string HostGroup;
  Hosts : gmap string Host;
  Services : gmap string Service;
  Actions : gmap string (list Action);
  mutex : bool  (* [sync.Mutex]: [true] while held *)
}.

Definition NewMockClient : MockClient :=
  {| Hostgroups := ∅;
     Hosts := ∅;
     Services := ∅;
     Actions := ∅;
     mutex := false |}.

End Mock.

(** ** Notions used to state the properties, and sample inputs *)

(** [contains s t]: [t] occurs in [s] as a contiguous substring. *)
Definition contains (s t : string) : Prop :=
  exists pre post, s = pre +:+ t +:+ post.

(** [in_order ts s]: the strings [ts] occur in [s] one after the other,
    without overlap, in the order of the list. *)
Fixpoint in_order (ts : list string) (s : string) : Prop :=
  match ts with
  | [] => True
  | t :: ts' => exists pre post, s = pre +:+ t +:+ post /\ in_order ts' post
  end.

(** [n] copies of the byte [c]. *)
Fixpoint copies (n : nat) (c : ascii) : string :=
  match n with
  | O => EmptyString
  | S n' => String c (copies n' c)
  end.

(** [ends_with s c]: the last byte of [s] is [c]. *)
Fixpoint ends_with (s : string) (c : ascii) : bool :=
  match s with
  | EmptyString => false
  | String d rest =>
      match rest with
      | EmptyString => Ascii.eqb d c
      | String _ _ => ends_with rest c
      end
  end.

(** The accumulated message as the specification words it: the reports
    of the items with code >= 400, in item order, glued together. *)
Definition accumulated (items : list ResultItem) : string :=
  foldr (fun r acc => item_report r +:+ acc) ""
    (List.filter failing items).

(** Sample responses. *)
Definition item_ok : ResultItem :=
  {| Code := 200%float; Errors := []; Status := ""; Name := ""; Type_ := "" |}.
Definition item_bad : ResultItem :=
  {| Code := 500%float; Errors := ["bad name"]; Status := "error";
     Name := ""; Type_ := "" |}.
Definition item_blank : ResultItem :=
  {| Code := 404%float; Errors := []; Status := ""; Name := ""; Type_ := "" |}.
Definition resp200 : HttpResponse :=
  {| StatusCode := 200; HttpStatus := "200 OK" |}.
Definition resp500 : HttpResponse :=
  {| StatusCode := 500; HttpStatus := "500 Internal Server Error" |}.
Definition no_items : Results := {| Results_ := [] |}.
Definition one_bad_of_two : Results := {| Results_ := [item_ok; item_bad] |}.
Definition one_blank : Results := {| Results_ := [item_blank] |}.

(** The trust roots the client's HTTP transport verifies against. *)
Definition trust_roots (c : WebClient) : option CertPool :=
  match Client (napping c) with
  | Some cl => TLS_RootCAs (TLSClientConfig (Transport cl))
  | None => None
  end.

Definition bare_client : WebClient :=
  {| napping := {| Log := false; Client := None; Userinfo := None |};
     URL := "https://icinga.example:5665//";
     Username := "root";
     Password := "secret";
     Debug := false;
     InsecureTLS := false;
     DisableKeepAlives := false;
     Zone := "";
     RootCAs := None |}.

Definition pool_unavailable : option CertPool * option error :=
  (None, Some (ExternalError "crypto/x509: system root pool is not available")).

(** The fields of an item that [handleResults] reads: whether its code
    reaches 400, its status and its error strings. *)
Definition report_fields (r : ResultItem) : bool * string * list string :=
  (failing r, Status r, Errors r).

(** A client given a base URL of slashes only, and one given its own
    trust roots. *)
Definition slashes_client : WebClient :=
  {| napping := {| Log := false; Client := None; Userinfo := None |};
     URL := "///";
     Username := "root";
     Password := "secret";
     Debug := true;
     InsecureTLS := true;
     DisableKeepAlives := false;
     Zone := "master";
     RootCAs := None |}.
Definition private_pool : CertPool := {| certs := ["icinga-ca"] |}.
Definition pinned_client : WebClient :=
  {| napping := {| Log := false; Client := None; Userinfo := None |};
     URL := "https://icinga.example:5665";
     Username := "root";
     Password := "secret";
     Debug := false;
     InsecureTLS := false;
     DisableKeepAlives := true;
     Zone := "";
     RootCAs := Some private_pool |}.
Definition pool_available : option CertPool * option error :=
  (Some {| certs := ["system-ca-1"; "system-ca-2"] |}, None).

(** Sessions that answer every request alike: one that cannot connect,
    one whose server answers 500 with an error body, one that hands
    back nothing at all. *)
Definition refused : Reply :=
  {| reply_resp := None;
     reply_results := no_items;
     reply_errmsg := no_items;
     reply_err := Some (ExternalError "dial tcp: connection refused") |}.
Definition server_error : Reply :=
  {| reply_resp := Some resp500;
     reply_results := no_items;
     reply_errmsg := one_bad_of_two;
     reply_err := None |}.
Definition silent : Reply :=
  {| reply_resp := None;
     reply_results := no_items;
     reply_errmsg := no_items;
     reply_err := None |}.
Definition answering (r : Reply) (_ : Session) (_ : string) (_ : string) : Reply := r.

(** ** Facts about byte strings *)

Lemma app_nil_l (s : string) : "" +:+ s = s.
Proof. reflexivity. Qed.

Lemma app_cons (c : ascii) (a b : string) : String c a +:+ b = String c (a +:+ b).
Proof. reflexivity. Qed.

Lemma app_nil_r (s : string) : s +:+ "" = s.
Proof.
  induction s as [|c s IH]; [reflexivity|].
  rewrite app_cons. f_equal. exact IH.
Qed.

Lemma app_assoc (a b c : string) : (a +:+ b) +:+ c = a +:+ (b +:+ c).
Proof.
  induction a as [|x a IH]; [reflexivity|].
  rewrite !app_cons. f_equal. exact IH.
Qed.

Lemma app_eq_nil (a b : string) : a +:+ b = "" -> a = "" /\ b = "".
Proof.
  destruct a as [|c a]; [rewrite app_nil_l; auto|].
  rewrite app_cons. discriminate.
Qed.

Lemma in_order_app_r (ts : list string) (s tail : string) :
  in_order ts s -> in_order ts (s +:+ tail).
Proof.
  revert s. induction ts as [|t ts IH]; intros s H; simpl in *; [exact I|].
  destruct H as (pre & post & -> & H).
  exists pre, (post +:+ tail). split.
  - now rewrite !app_assoc.
  - now apply IH.
Qed.

Lemma in_order_app_l (ts : list string) (s front : string) :
  in_order ts s -> in_order ts (front +:+ s).
Proof.
  destruct ts as [|t ts]; simpl; [auto|].
  intros (pre & post & -> & H).
  exists (front +:+ pre), post. split; [now rewrite !app_assoc | exact H].
Qed.

Lemma in_order_contains (ts : list string) (s t : string) :
  in_order ts s -> t ∈ ts -> contains s t.
Proof.
  revert s. induction ts as [|u ts IH]; intros s H Hin.
  - inversion Hin.
  - simpl in H. destruct H as (pre & post & -> & H).
    apply elem_of_cons in Hin as [->|Hin].
    + now exists pre, post.
    + destruct (IH _ H Hin) as (p & q & ->).
      exists (pre +:+ u +:+ p), q. now rewrite !app_assoc.
Qed.

Lemma contains_app_l (s t front : string) : contains s t -> contains (front +:+ s) t.
Proof.
  intros (pre & post & ->). exists (front +:+ pre), post. now rewrite !app_assoc.
Qed.

Lemma contains_app_r (s t tail : string) : contains s t -> contains (s +:+ tail) t.
Proof.
  intros (pre & post & ->). exists pre, (post +:+ tail). now rewrite !app_assoc.
Qed.

(** ** Facts about [strings.Join] and [strings.TrimRight] *)

Lemma Join_cons (e : string) (rest : list string) (sep : string) :
  rest <> [] -> strings.Join (e :: rest) sep = e +:+ sep +:+ strings.Join rest sep.
Proof. destruct rest; [congruence | reflexivity]. Qed.

Lemma Join_in_order (elems : list string) (sep : string) :
  in_order elems (strings.Join elems sep).
Proof.
  induction elems as [|e rest IH]; [exact I|].
  destruct rest as [|e' rest].
  - exists "", "". split; [|exact I].
    rewrite app_nil_l, app_nil_r. reflexivity.
  - rewrite Join_cons by discriminate.
    exists "", (sep +:+ strings.Join (e' :: rest) sep). split; [reflexivity|].
    now apply in_order_app_l.
Qed.

Lemma TrimRight_cons (c : ascii) (s cutset : string) :
  strings.TrimRight (String c s) cutset
  = match strings.TrimRight s cutset with
    | EmptyString =>
        if strings.in_cutset c cutset then EmptyString else String c EmptyString
    | String d kept => String c (String d kept)
    end.
Proof. reflexivity. Qed.

Lemma in_cutset_slash (c : ascii) : strings.in_cutset c "/" = Ascii.eqb c "/".
Proof. unfold strings.in_cutset. apply orb_false_r. Qed.

Lemma TrimRight_slash_split (s : string) :
  exists n, s = strings.TrimRight s "/" +:+ copies n "/".
Proof.
  induction s as [|c s [n IH]]; [now exists O|].
  rewrite TrimRight_cons, in_cutset_slash.
  destruct (strings.TrimRight s "/") as [|d kept] eqn:E.
  - rewrite app_nil_l in IH.
    destruct (Ascii.eqb_spec c "/") as [->|Hne].
    + exists (S n). rewrite app_nil_l. simpl. now rewrite <- IH.
    + exists n. rewrite app_cons, app_nil_l. now rewrite <- IH.
  - exists n. rewrite app_cons. now rewrite <- IH.
Qed.

Lemma TrimRight_slash_end (s : string) :
  ends_with (strings.TrimRight s "/") "/" = false.
Proof.
  induction s as [|c s IH]; [reflexivity|].
  rewrite TrimRight_cons, in_cutset_slash.
  destruct (strings.TrimRight s "/") as [|d kept] eqn:E.
  - destruct (Ascii.eqb_spec c "/") as [->|Hne]; [reflexivity|].
    simpl. now apply Ascii.eqb_neq.
  - exact IH.
Qed.

(** ** Facts about the two scanning loops *)

Lemma accumulated_cons (r : ResultItem) (items : list ResultItem) :
  accumulated (r :: items)
  = if failing r then item_report r +:+ accumulated items else accumulated items.
Proof. unfold accumulated. simpl. destruct (failing r); reflexivity. Qed.

Lemma accumulated_app (xs ys : list ResultItem) :
  accumulated (xs ++ ys) = accumulated xs +:+ accumulated ys.
Proof.
  induction xs as [|r xs IH]; [reflexivity|].
  rewrite <- app_comm_cons, !accumulated_cons, IH.
  destruct (failing r); [now rewrite app_assoc | reflexivity].
Qed.

Lemma scan_accumulated (acc : string) (items : list ResultItem) :
  scan acc items = acc +:+ accumulated items.
Proof.
  unfold scan. revert acc. induction items as [|r items IH]; intros acc.
  - simpl. unfold accumulated. simpl. now rewrite app_nil_r.
  - simpl. rewrite IH, accumulated_cons.
    destruct (failing r); [apply app_assoc | reflexivity].
Qed.

Lemma item_report_nonempty (r : ResultItem) : item_report r <> "".
Proof.
  unfold item_report. intros H.
  apply app_eq_nil in H as [_ H]. discriminate.
Qed.

Lemma accumulated_empty_iff (items : list ResultItem) :
  accumulated items = "" <-> Forall (fun r => failing r = false) items.
Proof.
  induction items as [|r items IH].
  - split; [constructor | reflexivity].
  - rewrite accumulated_cons. destruct (failing r) eqn:F.
    + split.
      * intros H. apply app_eq_nil in H as [H _]. now apply item_report_nonempty in H.
      * intros H. inversion H; congruence.
    + rewrite IH. split; [now constructor | intros H; now inversion H].
Qed.

Lemma accumulated_contains (items : list ResultItem) (r : ResultItem) :
  r ∈ items -> failing r = true -> contains (accumulated items) (item_report r).
Proof.
  intros Hin F. induction items as [|x items IH]; [inversion Hin|].
  rewrite accumulated_cons.
  apply elem_of_cons in Hin as [<-|Hin].
  - rewrite F. exists "", (accumulated items). reflexivity.
  - specialize (IH Hin). destruct (failing x); [now apply contains_app_l | exact IH].
Qed.

Lemma item_report_in_order (r : ResultItem) :
  in_order (Status r :: Errors r) (item_report r).
Proof.
  unfold item_report. rewrite !app_assoc.
  exists "", (" " +:+ strings.Join (Errors r) " " +:+ " "). split; [reflexivity|].
  apply in_order_app_l, in_order_app_r, Join_in_order.
Qed.

(** The two formatted messages, spelled out. *)
Lemma Sprintf_status_format (typ path status report : string) :
  fmt.Sprintf status_format [typ; path; status; report]
  = typ +:+ " " +:+ path +:+ " : " +:+ status +:+ " - " +:+ report.
Proof. cbn. now rewrite app_nil_r. Qed.

Lemma Sprintf_items_format (typ path report : string) :
  fmt.Sprintf items_format [typ; path; report]
  = typ +:+ " " +:+ path +:+ " : " +:+ report +:+ LF.
Proof. reflexivity. Qed.

(** [handleResults] once all three pointers are known to be non-nil and
    no transport error was passed. *)
Lemma handleResults_unfold (typ path : string) (resp : HttpResponse)
    (results errmsg : Results) :
  handleResults typ path (Some resp) (Some results) (Some errmsg) None
  = let report := accumulated (Results_ results ++ Results_ errmsg) in
    if 400 <=? StatusCode resp then
      Returned (Some (Errorf
        (typ +:+ " " +:+ path +:+ " : " +:+ HttpStatus resp +:+ " - " +:+ report)))
    else if negb (String.eqb report "") then
      Returned (Some (Errorf (typ +:+ " " +:+ path +:+ " : " +:+ report +:+ LF)))
    else Returned None.
Proof.
  unfold handleResults.
  rewrite Sprintf_status_format, Sprintf_items_format.
  rewrite !scan_accumulated, app_nil_l, <- accumulated_app. reflexivity.
Qed.

Lemma in_order_within (ts : list string) (s t : string) :
  contains s t -> in_order ts t -> in_order ts s.
Proof.
  intros (pre & post & ->) H. now apply in_order_app_l, in_order_app_r.
Qed.

Lemma accumulated_both_empty_iff (xs ys : list ResultItem) :
  accumulated (xs ++ ys) = ""
  <-> Forall (fun r => failing r = false) xs /\ Forall (fun r => failing r = false) ys.
Proof. rewrite accumulated_empty_iff. apply Forall_app. Qed.

Lemma accumulated_nonempty_iff (items : list ResultItem) :
  accumulated items <> "" <-> Exists (fun r => failing r = true) items.
Proof.
  induction items as [|r items IH].
  - split; [intros H; now destruct H | intros H; inversion H].
  - rewrite accumulated_cons, Exists_cons. destruct (failing r) eqn:F.
    + split; [now left|].
      intros _ H. apply app_eq_nil in H as [H _]. now apply item_report_nonempty in H.
    + rewrite IH. split; [now right | intros [H|H]; [discriminate | exact H]].
Qed.

Lemma accumulated_either_nonempty_iff (xs ys : list ResultItem) :
  accumulated (xs ++ ys) <> ""
  <-> Exists (fun r => failing r = true) xs \/ Exists (fun r => failing r = true) ys.
Proof. rewrite accumulated_nonempty_iff. apply Exists_app. Qed.

(** ** The reconciler's verdict *)

(** C1. With no transport error, [handleResults] returns nil exactly
    when no item of [results] has code >= 400, no item of [errmsg] has
    code >= 400 and the HTTP status code is below 400; and it returns a
    failure exactly when some item of either sequence has code >= 400
    or the HTTP status code is at least 400. *)
Theorem handleResults_success_iff (typ path : string) (resp : HttpResponse)
    (results errmsg : Results) :
  (handleResults typ path (Some resp) (Some results) (Some errmsg) None
     = Returned None
   <-> (Forall (fun r => failing r = false) (Results_ results)
        /\ Forall (fun r => failing r = false) (Results_ errmsg)
        /\ StatusCode resp < 400))
  /\ ((exists msg,
         handleResults typ path (Some resp) (Some results) (Some errmsg) None
         = Returned (Some (Errorf msg)))
      <-> (Exists (fun r => failing r = true) (Results_ results)
           \/ Exists (fun r => failing r = true) (Results_ errmsg)
           \/ 400 <= StatusCode resp)).
Proof.
  rewrite handleResults_unfold. cbv zeta.
  pose proof (accumulated_both_empty_iff (Results_ results) (Results_ errmsg)) as Hacc.
  pose proof (accumulated_either_nonempty_iff (Results_ results) (Results_ errmsg)) as Hex.
  destruct (Z.leb_spec 400 (StatusCode resp)) as [Hge|Hlt].
  - split; split.
    + discriminate.
    + intros (_ & _ & H). lia.
    + auto.
    + intros _. eexists. reflexivity.
  - destruct (String.eqb_spec (accumulated (Results_ results ++ Results_ errmsg)) "")
      as [Hempty|Hne]; cbn [negb].
    + split; split.
      * intros _. apply Hacc in Hempty as [Hr He]. auto.
      * reflexivity.
      * intros [msg H]. discriminate.
      * intros [H|[H|H]]; [| | lia]; exfalso; apply Hex; auto.
    + split; split.
      * discriminate.
      * intros (Hr & He & _). destruct Hne. apply Hacc. now split.
      * intros _. apply Hex in Hne as [H|H]; auto.
      * intros _. eexists. reflexivity.
Qed.

(** C2. A non-nil transport error is returned as it is, whatever the
    response pointer, the two result sequences, the kind and the path
    are: nothing is composed and nothing is inspected. *)
Theorem handleResults_transport_error (typ path : string)
    (resp : option HttpResponse) (results errmsg : option Results) (e : error) :
  handleResults typ path resp results errmsg (Some e) = Returned (Some e).
Proof. reflexivity. Qed.

Lemma in_order_reports (items : list ResultItem) :
  in_order (map item_report items)
    (foldr (fun r acc => item_report r +:+ acc) "" items).
Proof.
  induction items as [|r items IH]; [exact I|].
  cbn [map foldr]. exists "", (foldr (fun r acc => item_report r +:+ acc) "" items).
  split; [reflexivity | exact IH].
Qed.

(** C3. The accumulated message is the concatenation of the reports
    [status ++ " " ++ errors joined by " " ++ " "] of the items with
    code >= 400, those of [results] first and those of [errmsg] second,
    each in item order. The two loops compute it, and with no transport
    error [handleResults] returns exactly the message framed around it.
    Hence the reports of all failing items occur in a failure message
    one after the other in that order, and a failing item of either
    sequence makes the call fail with a message that contains the
    item's report, in which the item's status and its error strings
    occur in their original order. *)
Theorem resultReport_accumulates (typ path : string) (resp : HttpResponse)
    (results errmsg : Results) :
  let failed :=
    List.filter failing (Results_ results) ++ List.filter failing (Results_ errmsg) in
  let report := foldr (fun r acc => item_report r +:+ acc) "" failed in
  scan (scan "" (Results_ results)) (Results_ errmsg) = report
  /\ handleResults typ path (Some resp) (Some results) (Some errmsg) None
     = (if 400 <=? StatusCode resp then
          Returned (Some (Errorf
            (typ +:+ " " +:+ path +:+ " : " +:+ HttpStatus resp +:+ " - " +:+ report)))
        else if negb (String.eqb report "") then
          Returned (Some (Errorf (typ +:+ " " +:+ path +:+ " : " +:+ report +:+ LF)))
        else Returned None)
  /\ (forall msg : string,
        handleResults typ path (Some resp) (Some results) (Some errmsg) None
          = Returned (Some (Errorf msg)) ->
        in_order (map item_report failed) msg)
  /\ (forall r : ResultItem,
        r ∈ Results_ results ++ Results_ errmsg -> failing r = true ->
        exists msg,
          handleResults typ path (Some resp) (Some results) (Some errmsg) None
            = Returned (Some (Errorf msg))
          /\ contains msg (item_report r)
          /\ in_order (Status r :: Errors r) msg).
Proof.
  cbv zeta.
  assert (Hrep : foldr (fun r acc => item_report r +:+ acc) ""
                   (List.filter failing (Results_ results)
                      ++ List.filter failing (Results_ errmsg))
                 = accumulated (Results_ results ++ Results_ errmsg)).
  { unfold accumulated. now rewrite List.filter_app. }
  pose proof (in_order_reports
                (List.filter failing (Results_ results)
                   ++ List.filter failing (Results_ errmsg))) as Hord.
  rewrite Hrep in *. clear Hrep.
  split; [|split; [|split]].
  - now rewrite !scan_accumulated, app_nil_l, accumulated_app.
  - apply handleResults_unfold.
  - intros msg. rewrite handleResults_unfold. cbv zeta.
    destruct (400 <=? StatusCode resp).
    + intros [= <-]. rewrite <- !app_assoc. now apply in_order_app_l.
    + destruct (negb _); [|discriminate].
      intros [= <-]. rewrite <- !app_assoc. now apply in_order_app_r, in_order_app_l.
  - intros r Hin F.
    pose proof (accumulated_contains _ _ Hin F) as Hc.
    assert (Hne : accumulated (Results_ results ++ Results_ errmsg) <> "").
    { intros H. apply accumulated_empty_iff in H.
      rewrite Forall_forall in H. specialize (H r Hin). congruence. }
    rewrite handleResults_unfold. cbv zeta.
    destruct (400 <=? StatusCode resp).
    + eexists. split; [reflexivity|].
      assert (Hm : contains
                (typ +:+ " " +:+ path +:+ " : " +:+ HttpStatus resp +:+ " - "
                   +:+ accumulated (Results_ results ++ Results_ errmsg))
                (item_report r)).
      { rewrite <- !app_assoc. now apply contains_app_l. }
      split; [exact Hm|].
      eapply in_order_within; [exact Hm | apply item_report_in_order].
    + destruct (String.eqb_spec (accumulated (Results_ results ++ Results_ errmsg)) "")
        as [Hempty|_]; [contradiction|]. cbn [negb].
      eexists. split; [reflexivity|].
      assert (Hm : contains
                (typ +:+ " " +:+ path +:+ " : "
                   +:+ accumulated (Results_ results ++ Results_ errmsg) +:+ LF)
                (item_report r)).
      { rewrite <- !app_assoc. now apply contains_app_r, contains_app_l. }
      split; [exact Hm|].
      eapply in_order_within; [exact Hm | apply item_report_in_order].
Qed.

Lemma resultReport_accumulates_witness :
  item_bad ∈ Results_ one_bad_of_two ++ Results_ one_blank
  /\ failing item_bad = true
  /\ handleResults "create" "/hosts/x" (Some resp500)
       (Some one_bad_of_two) (Some one_blank) None
     = Returned (Some (Errorf
         "create /hosts/x : 500 Internal Server Error - error bad name   "))
  /\ in_order [item_report item_bad; item_report item_blank]
       "create /hosts/x : 500 Internal Server Error - error bad name   "
  /\ exists msg,
       handleResults "create" "/hosts/x" (Some resp500)
         (Some one_bad_of_two) (Some one_blank) None
         = Returned (Some (Errorf msg))
       /\ contains msg (item_report item_bad)
       /\ in_order ["error"; "bad name"] msg.
Proof.
  assert (Hin : item_bad ∈ Results_ one_bad_of_two ++ Results_ one_blank)
    by (simpl; repeat constructor).
  pose proof (resultReport_accumulates "create" "/hosts/x" resp500
                one_bad_of_two one_blank) as H.
  cbv zeta in H. destruct H as (_ & Hmsg & Hord & Hitem).
  split; [exact Hin|]. split; [reflexivity|]. split; [exact Hmsg|].
  split; [exact (Hord _ eq_refl) | exact (Hitem item_bad Hin eq_refl)].
Defined.

(** C4. With no transport error and an HTTP status code of at least
    400, the failure message is the kind, a space, the path, [" : "],
    the HTTP status text, [" - "] and the accumulated message, also
    when the latter is empty. *)
Theorem handleResults_status_failure (typ path : string) (resp : HttpResponse)
    (results errmsg : Results) :
  400 <= StatusCode resp ->
  handleResults typ path (Some resp) (Some results) (Some errmsg) None
  = Returned (Some (Errorf
      (typ +:+ " " +:+ path +:+ " : " +:+ HttpStatus resp +:+ " - "
         +:+ accumulated (Results_ results ++ Results_ errmsg)))).
Proof.
  intros H. rewrite handleResults_unfold. cbv zeta.
  destruct (Z.leb_spec 400 (StatusCode resp)); [reflexivity | lia].
Qed.

Lemma handleResults_status_failure_witness :
  400 <= StatusCode resp500
  /\ handleResults "create" "/hosts/x" (Some resp500) (Some no_items) (Some no_items) None
     = Returned (Some (Errorf "create /hosts/x : 500 Internal Server Error - ")).
Proof.
  assert (H : 400 <= StatusCode resp500) by (simpl; lia).
  split; [exact H|].
  exact (handleResults_status_failure "create" "/hosts/x" resp500 no_items no_items H).
Defined.

(** C5, as stated, fails: for results [{code:200}, {code:500,
    status:"error", errors:["bad name"]}] and HTTP status 200 the
    message is not ["create /hosts/x : error bad name "]; the format
    string of this branch ends in a line feed. *)
Lemma handleResults_items_message_has_line_feed :
  handleResults "create" "/hosts/x" (Some resp200)
    (Some one_bad_of_two) (Some no_items) None
  <> Returned (Some (Errorf "create /hosts/x : error bad name "))
  /\ handleResults "create" "/hosts/x" (Some resp200)
       (Some one_bad_of_two) (Some no_items) None
     = Returned (Some (Errorf ("create /hosts/x : error bad name " +:+ LF))).
Proof. split; [discriminate | reflexivity]. Qed.

(** C5, amended. With no transport error, an HTTP status code below 400
    and a non-empty accumulated message, the failure message is the
    kind, a space, the path, [" : "], the accumulated message and a
    closing line feed. *)
Theorem handleResults_items_failure (typ path : string) (resp : HttpResponse)
    (results errmsg : Results) :
  StatusCode resp < 400 ->
  accumulated (Results_ results ++ Results_ errmsg) <> "" ->
  handleResults typ path (Some resp) (Some results) (Some errmsg) None
  = Returned (Some (Errorf
      (typ +:+ " " +:+ path +:+ " : "
         +:+ accumulated (Results_ results ++ Results_ errmsg) +:+ LF))).
Proof.
  intros Hlt Hne. rewrite handleResults_unfold. cbv zeta.
  destruct (Z.leb_spec 400 (StatusCode resp)); [lia|].
  destruct (String.eqb_spec (accumulated (Results_ results ++ Results_ errmsg)) "");
    [contradiction | reflexivity].
Qed.

Lemma handleResults_items_failure_witness :
  StatusCode resp200 < 400
  /\ accumulated (Results_ one_bad_of_two ++ Results_ no_items) <> ""
  /\ handleResults "create" "/hosts/x" (Some resp200)
       (Some one_bad_of_two) (Some no_items) None
     = Returned (Some (Errorf ("create /hosts/x : error bad name " +:+ LF))).
Proof.
  assert (Hlt : StatusCode resp200 < 400) by (simpl; lia).
  assert (Hne : accumulated (Results_ one_bad_of_two ++ Results_ no_items) <> "")
    by (vm_compute; discriminate).
  split; [exact Hlt|]. split; [exact Hne|].
  exact (handleResults_items_failure "create" "/hosts/x" resp200
           one_bad_of_two no_items Hlt Hne).
Defined.

(** C9. On the branch taken when a transport error is present the
    function returns without touching the response or either result
    sequence: it does not fault and gives the same answer when all three
    pointers are nil. The response is read on the other branch only:
    with no transport error, a nil response makes the call fault. *)
Theorem handleResults_error_branch_safe (typ path : string)
    (resp : option HttpResponse) (results errmsg : option Results) (e : error) :
  handleResults typ path resp results errmsg (Some e) <> Panicked
  /\ handleResults typ path resp results errmsg (Some e)
     = handleResults typ path None None None (Some e)
  /\ handleResults typ path None results errmsg None = Panicked.
Proof.
  split; [discriminate|]. split; [reflexivity|].
  destruct results, errmsg; reflexivity.
Qed.

(** C10. An item with code >= 400, an empty status and no error strings
    contributes two spaces to the accumulated message; so, with no
    transport error, its presence in either sequence rules out a nil
    result and makes the call fail, whatever the HTTP status code is. *)
Theorem handleResults_blank_failing_item (typ path : string) (resp : HttpResponse)
    (results errmsg : Results) (r : ResultItem) :
  r ∈ Results_ results ++ Results_ errmsg ->
  failing r = true -> Status r = "" -> Errors r = [] ->
  item_report r = "  "
  /\ accumulated (Results_ results ++ Results_ errmsg) <> ""
  /\ handleResults typ path (Some resp) (Some results) (Some errmsg) None
     <> Returned None
  /\ exists msg,
       handleResults typ path (Some resp) (Some results) (Some errmsg) None
       = Returned (Some (Errorf msg)).
Proof.
  intros Hin F Hs He.
  assert (Hne : accumulated (Results_ results ++ Results_ errmsg) <> "").
  { apply accumulated_nonempty_iff, Exists_exists. now exists r. }
  split; [unfold item_report; now rewrite Hs, He|].
  split; [exact Hne|].
  rewrite handleResults_unfold. cbv zeta.
  destruct (400 <=? StatusCode resp).
  - split; [discriminate | eexists; reflexivity].
  - destruct (String.eqb_spec (accumulated (Results_ results ++ Results_ errmsg)) "");
      [contradiction|].
    split; [discriminate | eexists; reflexivity].
Qed.

Lemma handleResults_blank_failing_item_witness :
  item_blank ∈ Results_ one_blank ++ Results_ no_items
  /\ failing item_blank = true
  /\ accumulated (Results_ one_blank ++ Results_ no_items) = "  "
  /\ handleResults "update" "/hosts/x" (Some resp200)
       (Some one_blank) (Some no_items) None
     <> Returned None.
Proof.
  assert (Hin : item_blank ∈ Results_ one_blank ++ Results_ no_items)
    by (simpl; repeat constructor).
  split; [exact Hin|]. split; [reflexivity|]. split; [reflexivity|].
  exact (proj1 (proj2 (proj2
    (handleResults_blank_failing_item "update" "/hosts/x" resp200
       one_blank no_items item_blank Hin eq_refl eq_refl eq_refl)))).
Defined.

(** ** Construction of the live client *)

(** A failed retrieval of the system trust roots goes unreported: with
    no trust roots supplied and a failing retrieval, [New] still
    returns its client and a nil error. *)
Lemma New_discards_retrieval_error :
  RootCAs bare_client = None
  /\ snd pool_unavailable <> None
  /\ snd (New pool_unavailable bare_client) = None.
Proof.
  split; [reflexivity|]. split; [discriminate | reflexivity].
Qed.

(** C6. [New] accepts its inputs as they are (the base URL losing its
    trailing ['/'] bytes) and rejects none of them: it never returns a
    non-nil error. So a non-nil error is returned only when the
    retrieval of the system trust roots fails while no trust roots were
    supplied, the retrieval's own error being dropped. The transport's
    trust roots are the supplied set when there is one, and otherwise
    whatever the retrieval answered; so when no set was supplied and
    the retrieval fails with no pool, and in particular whenever an
    error is returned, the trust roots stay unset, as does the client's
    own [RootCAs] field. *)
Theorem New_never_fails (SystemCertPool : option CertPool * option error)
    (s : WebClient) :
  snd (New SystemCertPool s) = None
  /\ (let c := fst (New SystemCertPool s) in
      Username c = Username s /\ Password c = Password s
      /\ Debug c = Debug s /\ InsecureTLS c = InsecureTLS s
      /\ DisableKeepAlives c = DisableKeepAlives s /\ Zone c = Zone s
      /\ RootCAs c = RootCAs s
      /\ URL c = strings.TrimRight (URL s) "/"
      /\ Log (napping c) = Debug s
      /\ Userinfo (napping c) = Some (Username s, Password s)
      /\ trust_roots c
         = match RootCAs s with
           | Some pool => Some pool
           | None => fst SystemCertPool
           end
      /\ (RootCAs s = None -> fst SystemCertPool = None ->
          trust_roots c = None /\ RootCAs c = None)
      /\ (snd (New SystemCertPool s) <> None ->
          (RootCAs s = None /\ snd SystemCertPool <> None)
          /\ trust_roots c = None /\ RootCAs c = None)).
Proof.
  split; [reflexivity|]. cbv zeta.
  repeat (split; [reflexivity|]).
  split; [|split].
  - unfold trust_roots. simpl. destruct (RootCAs s); reflexivity.
  - intros Hs Hsys. unfold trust_roots. simpl. rewrite Hs. auto.
  - intros H. exfalso. apply H. reflexivity.
Qed.

Lemma New_never_fails_witness :
  RootCAs bare_client = None
  /\ fst pool_unavailable = None
  /\ snd (New pool_unavailable bare_client) = None
  /\ trust_roots (fst (New pool_unavailable bare_client)) = None
  /\ RootCAs (fst (New pool_unavailable bare_client)) = None.
Proof.
  pose proof (New_never_fails pool_unavailable bare_client) as [Herr H].
  cbv zeta in H.
  destruct H as (_ & _ & _ & _ & _ & _ & _ & _ & _ & _ & _ & H & _).
  split; [reflexivity|]. split; [reflexivity|]. split; [exact Herr|].
  exact (H eq_refl eq_refl).
Defined.

(** ** Create and update requests *)

(** C7. For a client obtained from [New], [CreateObject] hands [Put]
    the URL made of the base URL without its trailing ['/'] bytes,
    ["/v1/objects"] and the path, and passes the reply to
    [handleResults] with kind ["create"]; [UpdateObject] does the same
    through [Post] with kind ["update"]. The stripped base URL differs
    from the given one by a run of trailing ['/'] only and does not end
    in ['/']. *)
Theorem CreateObject_UpdateObject_request {Payload : Type}
    (Put Post : Session -> string -> Payload -> Reply)
    (SystemCertPool : option CertPool * option error) (s0 : WebClient)
    (path : string) (body : Payload) :
  let s := fst (New SystemCertPool s0) in
  let base := strings.TrimRight (URL s0) "/" in
  (exists n, URL s0 = base +:+ copies n "/")
  /\ ends_with base "/" = false
  /\ CreateObject Put s path body
     = (let r := Put (napping s) (base +:+ "/v1/objects" +:+ path) body in
        handleResults "create" path (reply_resp r)
          (Some (reply_results r)) (Some (reply_errmsg r)) (reply_err r))
  /\ UpdateObject Post s path body
     = (let r := Post (napping s) (base +:+ "/v1/objects" +:+ path) body in
        handleResults "update" path (reply_resp r)
          (Some (reply_results r)) (Some (reply_errmsg r)) (reply_err r)).
Proof.
  cbv zeta.
  split; [apply TrimRight_slash_split|].
  split; [apply TrimRight_slash_end|].
  unfold CreateObject, UpdateObject. cbn [New fst URL].
  rewrite !app_assoc. split; reflexivity.
Qed.

(** ** The mock client *)

(** C8. The four mappings of a fresh mock client (host groups, hosts,
    services, actions) are empty: every lookup in any of them finds
    nothing. *)
Theorem NewMockClient_empty {HostGroup Host Service Action : Type} (key : string) :
  let c := @NewMockClient HostGroup Host Service Action in
  Hostgroups c !! key = None
  /\ Hosts c !! key = None
  /\ Services c !! key = None
  /\ Actions c !! key = None
  /\ Hostgroups c = ∅ /\ Hosts c = ∅ /\ Services c = ∅ /\ Actions c = ∅.
Proof.
  cbv zeta. unfold NewMockClient. cbn.
  rewrite !lookup_empty. repeat split; reflexivity.
Qed.

(** ** Further properties of [New] *)

Lemma TrimRight_slash_unchanged (s : string) :
  ends_with s "/" = false -> strings.TrimRight s "/" = s.
Proof.
  induction s as [|c rest IH]; [reflexivity|].
  rewrite TrimRight_cons, in_cutset_slash.
  destruct rest as [|d r].
  - simpl. intros ->. reflexivity.
  - intros H. rewrite IH by exact H. reflexivity.
Qed.

Lemma TrimRight_slash_copies (n : nat) : strings.TrimRight (copies n "/") "/" = "".
Proof.
  induction n as [|n IH]; [reflexivity|].
  cbn [copies]. rewrite TrimRight_cons, IH. reflexivity.
Qed.

(** X1. Constructing a client from an already constructed one, against
    the same system trust store, changes nothing. *)
Theorem New_idempotent (SystemCertPool : option CertPool * option error)
    (s : WebClient) :
  New SystemCertPool (fst (New SystemCertPool s)) = New SystemCertPool s.
Proof.
  unfold New. cbn [fst URL Username Password Debug InsecureTLS DisableKeepAlives
                   Zone RootCAs].
  rewrite (TrimRight_slash_unchanged _ (TrimRight_slash_end (URL s))).
  reflexivity.
Qed.

(** X2. [New] keeps the base URL as given exactly when it does not end
    in ['/']. *)
Theorem New_URL_unchanged_iff (SystemCertPool : option CertPool * option error)
    (s : WebClient) :
  URL (fst (New SystemCertPool s)) = URL s <-> ends_with (URL s) "/" = false.
Proof.
  cbn [New fst URL]. split.
  - intros H. rewrite <- H. apply TrimRight_slash_end.
  - apply TrimRight_slash_unchanged.
Qed.

(** X3. A base URL made of ['/'] bytes only is trimmed to the empty
    string, so that create and update requests go to
    ["/v1/objects" ++ path]. *)
Theorem New_URL_only_slashes {Payload : Type}
    (Put Post : Session -> string -> Payload -> Reply)
    (SystemCertPool : option CertPool * option error) (s : WebClient)
    (n : nat) (path : string) (body : Payload) :
  URL s = copies n "/" ->
  let c := fst (New SystemCertPool s) in
  URL c = ""
  /\ CreateObject Put c path body
     = (let r := Put (napping c) ("/v1/objects" +:+ path) body in
        handleResults "create" path (reply_resp r)
          (Some (reply_results r)) (Some (reply_errmsg r)) (reply_err r))
  /\ UpdateObject Post c path body
     = (let r := Post (napping c) ("/v1/objects" +:+ path) body in
        handleResults "update" path (reply_resp r)
          (Some (reply_results r)) (Some (reply_errmsg r)) (reply_err r)).
Proof.
  intros H. cbv zeta. unfold CreateObject, UpdateObject. cbn [New fst URL].
  rewrite H, TrimRight_slash_copies, app_nil_l. repeat split.
Qed.

Lemma New_URL_only_slashes_witness :
  URL slashes_client = copies 3 "/"
  /\ URL (fst (New pool_unavailable slashes_client)) = ""
  /\ CreateObject (answering server_error)
       (fst (New pool_unavailable slashes_client)) "/hosts/x" "{}"
     = handleResults "create" "/hosts/x" (Some resp500)
         (Some no_items) (Some one_bad_of_two) None.
Proof.
  pose proof (New_URL_only_slashes (answering server_error) (answering server_error)
                pool_unavailable slashes_client 3 "/hosts/x" "{}" eq_refl) as H.
  cbv zeta in H. destruct H as (Hurl & Hcreate & _).
  split; [reflexivity|]. split; [exact Hurl | exact Hcreate].
Defined.

(** X4. When the caller supplies its own trust roots the system trust
    store plays no part: the constructed client is the same whatever
    the store answers, and its transport verifies against the supplied
    roots. *)
Theorem New_custom_roots (sys1 sys2 : option CertPool * option error)
    (s : WebClient) (pool : CertPool) :
  RootCAs s = Some pool ->
  New sys1 s = New sys2 s
  /\ trust_roots (fst (New sys1 s)) = Some pool.
Proof.
  intros H. unfold New, trust_roots. cbn [fst napping Client Transport
    TLSClientConfig TLS_RootCAs]. rewrite H. split; reflexivity.
Qed.

Lemma New_custom_roots_witness :
  RootCAs pinned_client = Some private_pool
  /\ New pool_unavailable pinned_client = New pool_available pinned_client
  /\ trust_roots (fst (New pool_unavailable pinned_client)) = Some private_pool.
Proof.
  split; [reflexivity|].
  exact (New_custom_roots pool_unavailable pool_available pinned_client
           private_pool eq_refl).
Defined.

(** ** Further properties of [handleResults] *)

(** With no transport error and both result pointers set, the outcome
    is a function of the response and of the accumulated message. *)
Lemma handleResults_by_report (typ path : string) (resp : option HttpResponse)
    (results errmsg results' errmsg' : Results) (oerr : option error) :
  accumulated (Results_ results ++ Results_ errmsg)
    = accumulated (Results_ results' ++ Results_ errmsg') ->
  handleResults typ path resp (Some results) (Some errmsg) oerr
  = handleResults typ path resp (Some results') (Some errmsg') oerr.
Proof.
  intros H. unfold handleResults.
  destruct oerr; [reflexivity|]. destruct resp; [|reflexivity].
  rewrite !scan_accumulated, !app_nil_l, <- !accumulated_app, H. reflexivity.
Qed.

Lemma accumulated_filter (items : list ResultItem) :
  accumulated (List.filter failing items) = accumulated items.
Proof.
  induction items as [|r items IH]; [reflexivity|].
  cbn [List.filter]. destruct (failing r) eqn:F.
  - rewrite !accumulated_cons, F, IH. reflexivity.
  - rewrite accumulated_cons, F. exact IH.
Qed.

Lemma accumulated_by_fields (xs ys : list ResultItem) :
  map report_fields xs = map report_fields ys -> accumulated xs = accumulated ys.
Proof.
  revert ys. induction xs as [|x xs IH]; intros [|y ys] H; try discriminate.
  - reflexivity.
  - cbn [map] in H. unfold report_fields at 1 3 in H.
    inversion H as [[Hf Hs He Hrest]].
    rewrite !accumulated_cons, Hf, (IH _ Hrest).
    unfold item_report. rewrite Hs, He. reflexivity.
Qed.

(** X5. With no transport error, a nil results pointer, a nil error
    body pointer or a nil response each make the call fault, whatever
    the other arguments are. *)
Theorem handleResults_nil_pointer_faults (typ path : string)
    (resp : option HttpResponse) (results errmsg : option Results) :
  results = None \/ errmsg = None \/ resp = None ->
  handleResults typ path resp results errmsg None = Panicked.
Proof.
  intros [-> | [-> | ->]].
  - reflexivity.
  - destruct results; reflexivity.
  - destruct results, errmsg; reflexivity.
Qed.

Lemma handleResults_nil_pointer_faults_witness :
  handleResults "create" "/hosts/x" (Some resp200) (Some one_bad_of_two) None None
  = Panicked.
Proof.
  exact (handleResults_nil_pointer_faults "create" "/hosts/x" (Some resp200)
           (Some one_bad_of_two) None (or_intror (or_introl eq_refl))).
Defined.

(** X6. Only three things are read from an item: whether its code
    reaches 400, its status and its error strings. Two responses whose
    items agree on these, position by position, get the same verdict;
    item names, item types and the exact codes play no part. *)
Theorem handleResults_reads_report_fields (typ path : string)
    (resp : option HttpResponse) (results errmsg results' errmsg' : Results)
    (oerr : option error) :
  map report_fields (Results_ results) = map report_fields (Results_ results') ->
  map report_fields (Results_ errmsg) = map report_fields (Results_ errmsg') ->
  handleResults typ path resp (Some results) (Some errmsg) oerr
  = handleResults typ path resp (Some results') (Some errmsg') oerr.
Proof.
  intros Hr He. apply handleResults_by_report.
  rewrite !accumulated_app.
  rewrite (accumulated_by_fields _ _ Hr), (accumulated_by_fields _ _ He).
  reflexivity.
Qed.

Lemma handleResults_reads_report_fields_witness :
  handleResults "update" "/hosts/x" (Some resp200)
    (Some one_bad_of_two) (Some no_items) None
  = handleResults "update" "/hosts/x" (Some resp200)
      (Some {| Results_ :=
                 [ {| Code := 204%float; Errors := []; Status := "";
                      Name := "x"; Type_ := "Host" |};
                   {| Code := 404%float; Errors := ["bad name"]; Status := "error";
                      Name := "y"; Type_ := "Host" |} ] |})
      (Some no_items) None.
Proof.
  exact (handleResults_reads_report_fields "update" "/hosts/x" (Some resp200)
           one_bad_of_two no_items _ no_items None eq_refl eq_refl).
Defined.

(** X7. Every error the call composes itself (no transport error was
    passed) is an [fmt.Errorf] value whose text starts with the kind, a
    space, the path and [" : "]. *)
Theorem handleResults_message_prefix (typ path : string)
    (resp : option HttpResponse) (results errmsg : option Results) (e : error) :
  handleResults typ path resp results errmsg None = Returned (Some e) ->
  exists rest, e = Errorf (typ +:+ " " +:+ path +:+ " : " +:+ rest).
Proof.
  destruct results as [rs|], errmsg as [es|], resp as [r|]; try discriminate.
  rewrite handleResults_unfold. cbv zeta.
  destruct (400 <=? StatusCode r).
  - intros [= <-]. eexists. reflexivity.
  - destruct (negb _); [|discriminate].
    intros [= <-]. eexists. reflexivity.
Qed.

Lemma handleResults_message_prefix_witness :
  exists rest,
    Errorf ("create /hosts/x : error bad name " +:+ LF)
    = Errorf ("create" +:+ " " +:+ "/hosts/x" +:+ " : " +:+ rest).
Proof.
  exact (handleResults_message_prefix "create" "/hosts/x" (Some resp200)
           (Some one_bad_of_two) (Some no_items)
           (Errorf ("create /hosts/x : error bad name " +:+ LF)) eq_refl).
Defined.

(** X8. Items with a code below 400 never influence the verdict or the
    message: dropping them from both sequences gives the same result. *)
Theorem handleResults_ignores_passing_items (typ path : string)
    (resp : option HttpResponse) (results errmsg : Results) (oerr : option error) :
  handleResults typ path resp
    (Some {| Results_ := List.filter failing (Results_ results) |})
    (Some {| Results_ := List.filter failing (Results_ errmsg) |}) oerr
  = handleResults typ path resp (Some results) (Some errmsg) oerr.
Proof.
  apply handleResults_by_report. cbn [Results_].
  rewrite !accumulated_app, !accumulated_filter. reflexivity.
Qed.

(** X9. The verdict depends on the two sequences only through their
    concatenation: items moved from the end of [results] to the front
    of [errmsg] leave the result unchanged. *)
Theorem handleResults_concatenation_only (typ path : string)
    (resp : option HttpResponse) (a b c : list ResultItem) (oerr : option error) :
  handleResults typ path resp
    (Some {| Results_ := a ++ b |}) (Some {| Results_ := c |}) oerr
  = handleResults typ path resp
      (Some {| Results_ := a |}) (Some {| Results_ := b ++ c |}) oerr.
Proof.
  apply handleResults_by_report. cbn [Results_].
  rewrite <- List.app_assoc. reflexivity.
Qed.

(** ** Further properties of [CreateObject] and [UpdateObject] *)

(** When [handleResults] returns nil. *)
Lemma handleResults_nil_iff (typ path : string) (resp : option HttpResponse)
    (results errmsg : Results) (oerr : option error) :
  handleResults typ path resp (Some results) (Some errmsg) oerr = Returned None
  <-> oerr = None
      /\ (exists r, resp = Some r /\ StatusCode r < 400)
      /\ Forall (fun r => failing r = false) (Results_ results)
      /\ Forall (fun r => failing r = false) (Results_ errmsg).
Proof.
  destruct oerr as [e|].
  - split; [discriminate | intros [H _]; discriminate].
  - destruct resp as [r|].
    + rewrite handleResults_unfold. cbv zeta.
      pose proof (accumulated_both_empty_iff (Results_ results) (Results_ errmsg)) as Hacc.
      destruct (Z.leb_spec 400 (StatusCode r)) as [Hge|Hlt].
      * split; [discriminate|]. intros (_ & (r' & [= <-] & H) & _). lia.
      * destruct (String.eqb_spec (accumulated (Results_ results ++ Results_ errmsg)) "")
          as [Hempty|Hne]; cbn [negb].
        -- split; [|reflexivity]. intros _. apply Hacc in Hempty as [Hr He].
           split; [reflexivity|]. split; [now exists r | now split].
        -- split; [discriminate|]. intros (_ & _ & Hr & He).
           destruct Hne. apply Hacc. now split.
    + split; [discriminate|]. intros (_ & (r' & H & _) & _). discriminate.
Qed.

(** The kind only shows as the first word of a composed message. *)
Lemma handleResults_kind (typ typ' path : string) (resp : option HttpResponse)
    (results errmsg : option Results) (oerr : option error) :
  (handleResults typ path resp results errmsg oerr
     = handleResults typ' path resp results errmsg oerr
   /\ forall msg, handleResults typ path resp results errmsg oerr
                  = Returned (Some (Errorf msg)) -> oerr = Some (Errorf msg))
  \/ exists rest,
       handleResults typ path resp results errmsg oerr
         = Returned (Some (Errorf (typ +:+ rest)))
       /\ handleResults typ' path resp results errmsg oerr
          = Returned (Some (Errorf (typ' +:+ rest))).
Proof.
  destruct oerr as [e|].
  { left. split; [reflexivity|]. intros msg [= ->]. reflexivity. }
  destruct results as [rs|], errmsg as [es|], resp as [r|];
    try (left; split; [reflexivity | discriminate]).
  rewrite !handleResults_unfold. cbv zeta.
  destruct (400 <=? StatusCode r).
  - right. eexists. split; reflexivity.
  - destruct (negb _).
    + right. eexists. split; reflexivity.
    + left. split; [reflexivity | discriminate].
Qed.

(** X10. An error reported by the session's [Put] or [Post] is what
    [CreateObject] or [UpdateObject] returns, whatever else the reply
    holds. *)
Theorem CreateObject_UpdateObject_transport_error {Payload : Type}
    (Put Post : Session -> string -> Payload -> Reply)
    (s : WebClient) (path : string) (body : Payload) (e e' : error) :
  reply_err (Put (napping s) ((URL s +:+ "/v1/objects") +:+ path) body) = Some e ->
  reply_err (Post (napping s) ((URL s +:+ "/v1/objects") +:+ path) body) = Some e' ->
  CreateObject Put s path body = Returned (Some e)
  /\ UpdateObject Post s path body = Returned (Some e').
Proof.
  intros Hput Hpost. unfold CreateObject, UpdateObject. cbv zeta.
  rewrite Hput, Hpost. split; reflexivity.
Qed.

Lemma CreateObject_UpdateObject_transport_error_witness :
  CreateObject (answering refused) bare_client "/hosts/x" "{}"
    = Returned (Some (ExternalError "dial tcp: connection refused"))
  /\ UpdateObject (answering refused) bare_client "/hosts/x" "{}"
     = Returned (Some (ExternalError "dial tcp: connection refused")).
Proof.
  exact (CreateObject_UpdateObject_transport_error (answering refused)
           (answering refused) bare_client "/hosts/x" "{}" _ _ eq_refl eq_refl).
Defined.

(** X11. When the session hands back neither an error nor a response,
    [CreateObject] and [UpdateObject] fault instead of returning an
    error. *)
Theorem CreateObject_UpdateObject_no_response {Payload : Type}
    (Put Post : Session -> string -> Payload -> Reply)
    (s : WebClient) (path : string) (body : Payload) :
  (let r := Put (napping s) ((URL s +:+ "/v1/objects") +:+ path) body in
   reply_err r = None /\ reply_resp r = None) ->
  (let r := Post (napping s) ((URL s +:+ "/v1/objects") +:+ path) body in
   reply_err r = None /\ reply_resp r = None) ->
  CreateObject Put s path body = Panicked
  /\ UpdateObject Post s path body = Panicked.
Proof.
  cbv zeta. intros [Hpe Hpr] [Hqe Hqr].
  unfold CreateObject, UpdateObject. cbv zeta.
  rewrite Hpe, Hpr, Hqe, Hqr. split; reflexivity.
Qed.

Lemma CreateObject_UpdateObject_no_response_witness :
  CreateObject (answering silent) bare_client "/hosts/x" "{}" = Panicked
  /\ UpdateObject (answering silent) bare_client "/hosts/x" "{}" = Panicked.
Proof.
  exact (CreateObject_UpdateObject_no_response (answering silent) (answering silent)
           bare_client "/hosts/x" "{}" (conj eq_refl eq_refl) (conj eq_refl eq_refl)).
Defined.

(** X12. [CreateObject] and [UpdateObject] return nil exactly when the
    session reports no error, hands back a response with a status code
    below 400, and neither decoded body holds an item with code >= 400. *)
Theorem CreateObject_UpdateObject_nil_iff {Payload : Type}
    (Put Post : Session -> string -> Payload -> Reply)
    (s : WebClient) (path : string) (body : Payload) :
  (CreateObject Put s path body = Returned None
   <-> (let r := Put (napping s) ((URL s +:+ "/v1/objects") +:+ path) body in
        reply_err r = None
        /\ (exists resp, reply_resp r = Some resp /\ StatusCode resp < 400)
        /\ Forall (fun i => failing i = false) (Results_ (reply_results r))
        /\ Forall (fun i => failing i = false) (Results_ (reply_errmsg r))))
  /\ (UpdateObject Post s path body = Returned None
      <-> (let r := Post (napping s) ((URL s +:+ "/v1/objects") +:+ path) body in
           reply_err r = None
           /\ (exists resp, reply_resp r = Some resp /\ StatusCode resp < 400)
           /\ Forall (fun i => failing i = false) (Results_ (reply_results r))
           /\ Forall (fun i => failing i = false) (Results_ (reply_errmsg r)))).
Proof.
  unfold CreateObject, UpdateObject. cbv zeta.
  split; apply handleResults_nil_iff.
Qed.

(** X13. Given the same reply, [CreateObject] and [UpdateObject] agree
    except for the first word of a message they compose: either both
    outcomes are equal (nil, a fault, or the session's own error), or
    the two messages are ["create"] and ["update"] followed by the same
    text. *)
Theorem CreateObject_UpdateObject_same_reply {Payload : Type}
    (Put Post : Session -> string -> Payload -> Reply)
    (s : WebClient) (path : string) (body : Payload) :
  Put (napping s) ((URL s +:+ "/v1/objects") +:+ path) body
    = Post (napping s) ((URL s +:+ "/v1/objects") +:+ path) body ->
  (CreateObject Put s path body = UpdateObject Post s path body
   /\ forall msg, CreateObject Put s path body = Returned (Some (Errorf msg)) ->
        reply_err (Put (napping s) ((URL s +:+ "/v1/objects") +:+ path) body)
        = Some (Errorf msg))
  \/ exists rest,
       CreateObject Put s path body = Returned (Some (Errorf ("create" +:+ rest)))
       /\ UpdateObject Post s path body
          = Returned (Some (Errorf ("update" +:+ rest))).
Proof.
  intros H. unfold CreateObject, UpdateObject. cbv zeta. rewrite <- H.
  apply handleResults_kind.
Qed.

Lemma CreateObject_UpdateObject_same_reply_witness :
  exists rest,
    CreateObject (answering server_error) bare_client "/hosts/x" "{}"
      = Returned (Some (Errorf ("create" +:+ rest)))
    /\ UpdateObject (answering server_error) bare_client "/hosts/x" "{}"
       = Returned (Some (Errorf ("update" +:+ rest))).
Proof.
  destruct (CreateObject_UpdateObject_same_reply (answering server_error)
              (answering server_error) bare_client "/hosts/x" "{}" eq_refl)
    as [[_ H]|H].
  - specialize (H _ eq_refl). discriminate H.
  - exact H.
Defined.

(** ** How a composed message ends *)

Lemma ends_with_app (a b : string) (c : ascii) :
  b <> "" -> ends_with (a +:+ b) c = ends_with b c.
Proof.
  intros Hb. induction a as [|x a IH]; [reflexivity|].
  rewrite app_cons. cbn [ends_with].
  destruct (a +:+ b) as [|d rest] eqn:E.
  - apply app_eq_nil in E as [_ E]. contradiction.
  - exact IH.
Qed.

Lemma ends_with_unique (s : string) (c d : ascii) :
  ends_with s c = true -> c <> d -> ends_with s d = false.
Proof.
  induction s as [|x s IH]; [discriminate|].
  cbn [ends_with]. destruct s as [|y s'].
  - intros H Hne. apply Ascii.eqb_eq in H as ->. now apply Ascii.eqb_neq.
  - exact IH.
Qed.

Lemma accumulated_ends_in_space (items : list ResultItem) :
  accumulated items = "" \/ ends_with (accumulated items) " " = true.
Proof.
  induction items as [|r items IH]; [now left|].
  rewrite accumulated_cons. destruct (failing r); [|exact IH].
  right. destruct IH as [-> | IH].
  - rewrite app_nil_r. unfold item_report. now rewrite ends_with_app.
  - destruct (String.eqb_spec (accumulated items) "") as [E|E].
    + rewrite E in IH. discriminate.
    + now rewrite ends_with_app.
Qed.

(** X14. A message the call composes ends in a line feed exactly when
    the HTTP status code is below 400; the message of the status branch
    always ends in a space. *)
Theorem handleResults_message_end (typ path msg : string) (resp : HttpResponse)
    (results errmsg : Results) :
  handleResults typ path (Some resp) (Some results) (Some errmsg) None
    = Returned (Some (Errorf msg)) ->
  (ends_with msg (ascii_of_nat 10) = true <-> StatusCode resp < 400)
  /\ (ends_with msg " " = true <-> 400 <= StatusCode resp).
Proof.
  rewrite handleResults_unfold. cbv zeta.
  destruct (Z.leb_spec 400 (StatusCode resp)) as [Hge|Hlt].
  - intros [= <-].
    assert (Hsp : ends_with
              (typ +:+ " " +:+ path +:+ " : " +:+ HttpStatus resp +:+ " - "
                 +:+ accumulated (Results_ results ++ Results_ errmsg)) " " = true).
    { rewrite <- !app_assoc.
      destruct (accumulated_ends_in_space (Results_ results ++ Results_ errmsg))
        as [-> | Hacc].
      - rewrite app_nil_r. now rewrite ends_with_app.
      - rewrite ends_with_app; [exact Hacc|]. intros E. rewrite E in Hacc. discriminate. }
    split; split; try lia; auto.
    intros H. rewrite (ends_with_unique _ " " (ascii_of_nat 10) Hsp) in H; discriminate.
  - destruct (negb _); [|discriminate]. intros [= <-].
    assert (Hlf : ends_with
              (typ +:+ " " +:+ path +:+ " : "
                 +:+ accumulated (Results_ results ++ Results_ errmsg) +:+ LF)
              (ascii_of_nat 10) = true).
    { rewrite <- !app_assoc. now rewrite ends_with_app. }
    split; split; try lia; auto.
    intros H. rewrite (ends_with_unique _ (ascii_of_nat 10) " " Hlf) in H; discriminate.
Qed.

Lemma handleResults_message_end_witness :
  (ends_with ("create /hosts/x : error bad name " +:+ LF) (ascii_of_nat 10) = true
   <-> StatusCode resp200 < 400)
  /\ (ends_with ("create /hosts/x : error bad name " +:+ LF) " " = true
      <-> 400 <= StatusCode resp200).
Proof.
  exact (handleResults_message_end "create" "/hosts/x"
           ("create /hosts/x : error bad name " +:+ LF) resp200
           one_bad_of_two no_items eq_refl).
Defined.
